(** * MobileNetV2 model definition (tutorials/Quantization/models/mobilenetv2.py)

    A shallow embedding of the model-definition file and the properties of
    its channel rounder, its inverted residual block and its network
    assembler.

    Conventions of the embedding.
    - Python [int] is [Z].  Python [float] is modelled by exact rationals
      ([Q]): [divisor / 2], [c * width_mult] and [0.9 * v] are computed
      without rounding, and the overflow of a conversion to float is not
      modelled.  On integer-valued targets and divisors below 2^49 in
      magnitude (all inputs at the default width 1.0) this agrees with
      binary64: [divisor / 2] and [v + divisor / 2] are then exact
      half-integers, and the rounded product [0.9 * v] lies on the same
      side of every integer as the exact one.  [Binary64] evaluates the
      channel rounder on binary64 values, and [rounders_agree_default]
      checks the agreement on a range of inputs.
    - A raised exception is a value of [exn]; code that may raise returns
      [result].
    - An [nn.Module] instance whose attribute accesses matter is an
      explicit attribute store, and its [__init__] runs in a state and
      error monad over that store. *)

From Stdlib Require Import ZArith QArith Qround Lia.
From Stdlib Require Import Floats.SpecFloat.
From stdpp Require Import base option list strings.

Local Open Scope Z_scope.

(** ** Exceptions and results *)

Inductive exn : Type :=
  | AssertionError
  | AttributeError (cls attr : string)
    (* the error raised at mobilenetv2.py:113, carrying the offending value *)
  | ValueError_setting (setting : list (list Z))
    (* tuple unpacking [for t, c, n, s in ...] of an entry of another length *)
  | ValueError_unpack (expected got : nat)
  | ZeroDivisionError
  | OverflowError
  | ValueError (msg : string)
  | TypeError (msg : string)
    (* raised by the framework's kernels, e.g. on a shape mismatch *)
  | RuntimeError (msg : string).

Inductive result (A : Type) : Type :=
  | Ok (a : A)
  | Raise (e : exn).
Arguments Ok {A} a.
Arguments Raise {A} e.

#[export] Instance result_ret : MRet result := @Ok.
#[export] Instance result_bind : MBind result := λ A B f m,
  match m with
  | Ok a => f a
  | Raise e => Raise e
  end.

Definition is_Ok {A} (r : result A) : bool :=
  match r with Ok _ => true | Raise _ => false end.

(** [for x in xs: body], threading the loop's variables [st]; an exception
    leaves the loop. *)
Definition for_each {A S} (body : A → S → result S) : list A → S → result S :=
  fix go xs st :=
    match xs with
    | [] => Ok st
    | x :: xs => st ← body x st; go xs st
    end.

(** ** Python arithmetic *)

(** [int(x)] on a float: truncation toward zero. *)
Definition int (x : Q) : Z := Z.quot (Qnum x) (Zpos (Qden x)).

(** [round(x)] on a float: to the nearest integer, ties to the even one. *)
Definition round (x : Q) : Z :=
  let f := Qfloor x in
  match (x - inject_Z f ?= 1 # 2)%Q with
  | Lt => f
  | Gt => f + 1
  | Eq => if Z.even f then f else f + 1
  end.

(** [a // b] on ints: floor division, [ZeroDivisionError] when [b == 0]. *)
Definition floordiv (a b : Z) : result Z :=
  if decide (b = 0) then Raise ZeroDivisionError else Ok (a / b).

(** [x < y] on numbers. *)
Definition Qltb (x y : Q) : bool :=
  match (x ?= y)%Q with Lt => true | _ => false end.

(** [max(x, y)] on floats. *)
Definition Qmax (x y : Q) : Q := if Qltb x y then y else x.

(** ** Channel rounder: [_make_divisible] (mobilenetv2.py:5-14) *)

Definition _make_divisible (v : Q) (divisor : Z) (min_value : option Z) : result Z :=
  let min_value := default divisor min_value in
  q ← floordiv (int (v + inject_Z divisor / 2)) divisor;
  let new_v := Z.max min_value (q * divisor) in
  let new_v :=
    if Qltb (inject_Z new_v) ((9 # 10) * v) then new_v + divisor else new_v in
  Ok new_v.

(** *** The channel rounder in binary64

    The same function on IEEE 754 binary64 values, as Python evaluates it;
    it serves to cross-check the exact arithmetic above on a range of
    inputs.  An int operand of [+], [*] or [/] is first converted to float;
    an int and a float are compared by their exact values. *)

Module Binary64.

Definition prec : Z := 53.
Definition emax : Z := 1024.

(** [float(z)], [OverflowError] past the largest finite float *)
Definition of_int (z : Z) : result spec_float :=
  match binary_normalize prec emax z 0 false with
  | S754_infinity _ => Raise OverflowError
  | x => Ok x
  end.

(** [int(x)]: truncation toward zero *)
Definition to_int (x : spec_float) : result Z :=
  match x with
  | S754_zero _ => Ok 0
  | S754_finite s m e =>
      Ok (cond_Zopp s (if bool_decide (0 ≤ e) then Zpos m * 2 ^ e
                       else Zpos m / 2 ^ (- e)))
  | S754_infinity _ => Raise OverflowError
  | S754_nan => Raise (ValueError "cannot convert float NaN to integer")
  end.

(** [z < x] for an int [z] and a float [x] *)
Definition int_lt_float (z : Z) (x : spec_float) : bool :=
  match x with
  | S754_zero _ => bool_decide (z < 0)
  | S754_finite s m e =>
      if bool_decide (0 ≤ e)
      then bool_decide (z < cond_Zopp s (Zpos m) * 2 ^ e)
      else bool_decide (z * 2 ^ (- e) < cond_Zopp s (Zpos m))
  | S754_infinity s => negb s
  | S754_nan => false
  end.

(** The literal [0.9]: the float nearest to nine tenths. *)
Definition nine_tenths : spec_float := S754_finite false 8106479329266893 (-53).

Definition _make_divisible (v : spec_float) (divisor : Z) (min_value : option Z)
    : result Z :=
  let min_value := default divisor min_value in
  divisor_f ← of_int divisor;
  two ← of_int 2;
  x ← to_int (SFadd prec emax v (SFdiv prec emax divisor_f two));
  q ← floordiv x divisor;
  let new_v := Z.max min_value (q * divisor) in
  let new_v :=
    if int_lt_float new_v (SFmul prec emax nine_tenths v)
    then new_v + divisor else new_v in
  Ok new_v.

End Binary64.

(** Both evaluations of the rounder return, and return the same. *)
Definition rounders_agree (v divisor : Z) (min_value : option Z) : bool :=
  match (x ← Binary64.of_int v; Binary64._make_divisible x divisor min_value),
        _make_divisible (inject_Z v) divisor min_value with
  | Ok a, Ok b => bool_decide (a = b)
  | _, _ => false
  end.

(** ** The framework's layers

    Layers are records of their hyperparameters; weights, and the weight
    initialisation loop at the end of [MobileNetV2.__init__], are not part
    of the model, and neither is the framework's own validation of layer
    arguments. *)

#[warnings="-register-all"] Inductive layer : Type :=
  | Conv2d (in_channels out_channels kernel_size stride padding groups : Z)
           (bias : bool)
  | BatchNorm2d (num_features : Z) (momentum : Q)
  | ReLU (inplace : bool)
  | Dropout (p : Q)
  | Linear (in_features out_features : Z)
  | Sequential (children : list layer)
  | FloatFunctional
  | QuantStub
  | DeQuantStub.

(** ** Conv-Norm-Activation block: [ConvBnReLU] (mobilenetv2.py:17-31)

    The keyword defaults of the source are [kernel_size=3], [stride=1],
    [groups=1]; call sites below write them out. *)

Definition ConvBnReLU (in_planes out_planes kernel_size stride groups : Z) : layer :=
  let padding := (kernel_size - 1) / 2 in
  Sequential
    [ Conv2d in_planes out_planes kernel_size stride padding groups false;
      BatchNorm2d out_planes (1 # 10);
      ReLU false ].

(** ** Module instances as attribute stores

    [nn.Module.__setattr__] files a sub-module under [_modules] and any
    other value under the instance dictionary; an attribute read consults
    the instance dictionary and then, through [nn.Module.__getattr__], the
    registered sub-modules, and raises [AttributeError] when neither holds
    the name.  (Neither [nn.Module] nor the classes of this file define a
    class attribute called [stride] or [use_res_connect].)

    Both dictionaries keep insertion order ([_modules] is an ordered
    dictionary whose order the framework's traversals follow), so they are
    association lists without duplicate keys. *)

Inductive value : Type :=
  | VBool (b : bool)
  | VInt (z : Z)
  | VModule (m : layer).

Section Dict.
Context {V : Type}.

(** [d[name]], when present *)
Fixpoint dict_get (name : string) (d : list (string * V)) : option V :=
  match d with
  | [] => None
  | (k, v) :: d => if bool_decide (k = name) then Some v else dict_get name d
  end.

(** [d[name] = v]: in place when the key is present, at the end when not *)
Fixpoint dict_set (name : string) (v : V) (d : list (string * V)) : list (string * V) :=
  match d with
  | [] => [(name, v)]
  | (k, w) :: d =>
      if bool_decide (k = name) then (k, v) :: d else (k, w) :: dict_set name v d
  end.

(** [d.pop(name, None)] *)
Fixpoint dict_del (name : string) (d : list (string * V)) : list (string * V) :=
  match d with
  | [] => []
  | (k, w) :: d => if bool_decide (k = name) then d else (k, w) :: dict_del name d
  end.
End Dict.

Record pyobject : Type := PyObject {
  cls : string;
  attrs : list (string * value);
  modules : list (string * layer)
}.

(** A method body: reads and updates [self], may raise. *)
Definition method (A : Type) : Type := pyobject → result (A * pyobject).

#[export] Instance method_ret : MRet method := λ A a self, Ok (a, self).
#[export] Instance method_bind : MBind method := λ A B f m self,
  match m self with
  | Ok (a, self') => f a self'
  | Raise e => Raise e
  end.

Definition raise {A} (e : exn) : method A := λ _, Raise e.

(** [assert cond] *)
Definition assert (cond : bool) : method unit :=
  if cond then mret () else raise AssertionError.

(** [self.name] *)
Definition getattr (name : string) : method value := λ self,
  match dict_get name (attrs self) with
  | Some v => Ok (v, self)
  | None =>
      match dict_get name (modules self) with
      | Some m => Ok (VModule m, self)
      | None => Raise (AttributeError (cls self) name)
      end
  end.

(** [self.name = v] *)
Definition setattr (name : string) (v : value) : method unit := λ self,
  match v with
  | VModule m =>
      Ok ((), PyObject (cls self) (dict_del name (attrs self))
                       (dict_set name m (modules self)))
  | _ =>
      match dict_get name (modules self) with
      | Some _ => Raise (TypeError "cannot assign as child module")
      | None => Ok ((), PyObject (cls self) (dict_set name v (attrs self))
                                 (modules self))
      end
  end.

(** [super().__init__()] for a direct subclass of [nn.Module]: it sets
    [training] and starts the registry of sub-modules. *)
Definition Module_init : method unit := λ self,
  Ok ((), PyObject (cls self) (dict_set "training" (VBool true) (attrs self)) []).

(** [Class(...)]: allocate an instance, run [__init__] on it, return it. *)
Definition new (class : string) (init : method unit) : result pyobject :=
  match init (PyObject class [] []) with
  | Ok (_, self) => Ok self
  | Raise e => Raise e
  end.

(** [a == b] on the values an attribute can hold here. *)
Definition py_eq (a b : value) : bool :=
  match a, b with
  | VInt x, VInt y => bool_decide (x = y)
  | VBool x, VBool y => bool_decide (x = y)
  | VBool x, VInt y | VInt y, VBool x => bool_decide ((if x then 1 else 0) = y)
  | _, _ => false
  end.

(** ** Inverted residual block: [InvertedResidual] (mobilenetv2.py:34-80)

    In [hidden_dim = int(round(in_planes * expand_ratio))] the call of
    [round] already returns an int, which [int] leaves as it is. *)

Definition InvertedResidual_init
    (in_planes out_planes stride : Z) (expand_ratio : Q) : method unit :=
  Module_init;;
  assert (bool_decide (stride ∈ [1; 2]));;
  let hidden_dim := round (inject_Z in_planes * expand_ratio) in
  self_stride ← getattr "stride";
  setattr "use_res_connect"
    (VBool (py_eq self_stride (VInt 1) && bool_decide (in_planes = out_planes)));;
  let layers := [] in
  let layers :=
    if negb (Qeq_bool expand_ratio 1)
    then layers ++ [ConvBnReLU in_planes hidden_dim 1 1 1]
    else layers in
  let layers :=
    layers ++ [ ConvBnReLU hidden_dim hidden_dim 3 stride hidden_dim;
                Conv2d hidden_dim out_planes 1 1 0 1 false;
                BatchNorm2d out_planes (1 # 10) ] in
  setattr "conv" (VModule (Sequential layers));;
  setattr "skip_add" (VModule FloatFunctional).

Definition InvertedResidual
    (in_planes out_planes stride : Z) (expand_ratio : Q) : result pyobject :=
  new "InvertedResidual" (InvertedResidual_init in_planes out_planes stride expand_ratio).

(** The block's constructor as the specification words its shortcut rule
    (section 4.3: compare the actual [stride] parameter to 1).  This is not
    the source: it differs from [InvertedResidual_init] in that one read,
    and serves to compare the two. *)
Definition InvertedResidual_spec_init
    (in_planes out_planes stride : Z) (expand_ratio : Q) : method unit :=
  Module_init;;
  assert (bool_decide (stride ∈ [1; 2]));;
  let hidden_dim := round (inject_Z in_planes * expand_ratio) in
  setattr "use_res_connect"
    (VBool (bool_decide (stride = 1) && bool_decide (in_planes = out_planes)));;
  let layers := [] in
  let layers :=
    if negb (Qeq_bool expand_ratio 1)
    then layers ++ [ConvBnReLU in_planes hidden_dim 1 1 1]
    else layers in
  let layers :=
    layers ++ [ ConvBnReLU hidden_dim hidden_dim 3 stride hidden_dim;
                Conv2d hidden_dim out_planes 1 1 0 1 false;
                BatchNorm2d out_planes (1 # 10) ] in
  setattr "conv" (VModule (Sequential layers));;
  setattr "skip_add" (VModule FloatFunctional).

Definition InvertedResidual_spec
    (in_planes out_planes stride : Z) (expand_ratio : Q) : result pyobject :=
  new "InvertedResidual"
      (InvertedResidual_spec_init in_planes out_planes stride expand_ratio).

(** ** Network assembler: [MobileNetV2.__init__] (mobilenetv2.py:83-139) *)

(** A child of the [features] container: a framework layer or an instance
    of a class of this file. *)
Inductive submodule : Type :=
  | Layer (l : layer)
  | Instance (self : pyobject).

(** [MobileNetV2] assigns each of its attributes before reading it, so an
    instance is a record of them. *)
Record MobileNetV2_object : Type := {
  last_channel : Z;
  features : list submodule;
  quant : layer;
  dequant : layer;
  classifier : layer
}.

Definition default_inverted_residual_setting : list (list Z) :=
  [ [1; 16; 1; 1];
    [6; 24; 2; 2];
    [6; 32; 3; 2];
    [6; 64; 4; 2];
    [6; 96; 3; 1];
    [6; 160; 3; 2];
    [6; 320; 1; 1] ].

Section Assembler.
(** The source binds [block = InvertedResidual] and builds every stage
    through [block]. *)
Variable block : Z → Z → Z → Q → result pyobject.

(** Lines 125-128: [for i in range(n)], on the loop's variables
    [(features, input_channel)]. *)
Definition stage_body (t s output_channel i : Z)
    (st : list submodule * Z) : result (list submodule * Z) :=
  let '(features, input_channel) := st in
  let stride := if bool_decide (i = 0) then s else 1 in
  b ← block input_channel output_channel stride (inject_Z t);
  Ok (features ++ [Instance b], output_channel).

(** Lines 123-128: one iteration of [for t, c, n, s in ...]. *)
Definition setting_body (width_mult : Q) (round_nearest : Z) (entry : list Z)
    (st : list submodule * Z) : result (list submodule * Z) :=
  match entry with
  | [t; c; n; s] =>
      output_channel ← _make_divisible (inject_Z c * width_mult) round_nearest None;
      for_each (stage_body t s output_channel) (seqZ 0 n) st
  | _ => Raise (ValueError_unpack 4 (length entry))
  end.

Definition MobileNetV2_with_block
    (num_classes : Z) (width_mult : Q)
    (inverted_residual_setting : option (list (list Z)))
    (round_nearest : Z) : result MobileNetV2_object :=
  let input_channel := 32 in
  let last_channel := 1280 in
  let inverted_residual_setting :=
    default default_inverted_residual_setting inverted_residual_setting in
  if bool_decide (length inverted_residual_setting = 0%nat)
     || negb (bool_decide (length (nth 0 inverted_residual_setting []) = 4%nat))
  then Raise (ValueError_setting inverted_residual_setting)
  else
    input_channel ←
      _make_divisible (inject_Z input_channel * width_mult) round_nearest None;
    self_last_channel ←
      _make_divisible (inject_Z last_channel * Qmax 1 width_mult) round_nearest None;
    let features := [Layer (ConvBnReLU 3 input_channel 3 2 1)] in
    '(features, input_channel) ←
      for_each (setting_body width_mult round_nearest)
               inverted_residual_setting (features, input_channel);
    let features :=
      features ++ [Layer (ConvBnReLU input_channel self_last_channel 1 1 1)] in
    Ok {| last_channel := self_last_channel;
          features := features;
          quant := QuantStub;
          dequant := DeQuantStub;
          classifier := Sequential [Dropout (1 # 5);
                                    Linear self_last_channel num_classes] |}.
End Assembler.

(** [MobileNetV2(num_classes, width_mult, inverted_residual_setting,
    round_nearest)]; the keyword defaults are [1000], [1.0], [None], [8]. *)
Definition MobileNetV2 :=
  MobileNetV2_with_block InvertedResidual.

(** The assembler over the block of the specification's wording. *)
Definition MobileNetV2_spec :=
  MobileNetV2_with_block InvertedResidual_spec.

(** The network of the schedule [[1, 16, 0, 1]] at the default width: its
    single stage repeats zero times. *)
Definition block_free_network (num_classes : Z) : MobileNetV2_object :=
  {| last_channel := 1280;
     features := [Layer (ConvBnReLU 3 32 3 2 1);
                  Layer (ConvBnReLU 32 1280 1 1 1)];
     quant := QuantStub;
     dequant := DeQuantStub;
     classifier := Sequential [Dropout (1 # 5); Linear 1280 num_classes] |}.

(** What the check of line 112 looks for: an empty schedule, or a first
    entry that does not have 4 fields. *)
Definition first_entry_malformed (setting : list (list Z)) : Prop :=
  setting = [] ∨ ∃ e, head setting = Some e ∧ length e ≠ 4%nat.


(** The number of blocks a schedule asks for: the sum of its repeat
    counts, [range(n)] being empty for [n <= 0]. *)
Definition repeat_count (entry : list Z) : nat := Z.to_nat (nth 2 entry 0).

Definition total_blocks (setting : list (list Z)) : nat :=
  sum_list (repeat_count <$> setting).

(** ** Forward computation

    The tensor type and its kernels belong to the framework; the forward
    methods are written against this interface. *)

Class Tensor (T : Type) : Type := {
  conv2d : Z → Z → Z → Z → Z → Z → T → result T;
  batch_norm : Z → T → result T;
  relu : T → result T;
  dropout : Q → T → result T;
  linear : Z → Z → T → result T;
  (* [FloatFunctional.add] *)
  add : T → T → result T;
  (* [x.mean(dims)] *)
  mean : list Z → T → result T;
  quantize : T → result T;
  dequantize : T → result T
}.

Section Forward.
Context {T : Type} `{!Tensor T}.

(** [layer(x)] for the framework's layers; [nn.Sequential] feeds each
    child the output of the one before. *)
Fixpoint forward_layer (l : layer) (x : T) : result T :=
  match l with
  | Conv2d i o k s p g _ => conv2d i o k s p g x
  | BatchNorm2d c _ => batch_norm c x
  | ReLU _ => relu x
  | Dropout p => dropout p x
  | Linear i o => linear i o x
  | Sequential children =>
      (fix go ls x :=
         match ls with
         | [] => Ok x
         | l :: ls => x ← forward_layer l x; go ls x
         end) children x
  | FloatFunctional => Raise (RuntimeError "FloatFunctional has no forward")
  | QuantStub => quantize x
  | DeQuantStub => dequantize x
  end.

Definition lift {A} (r : result A) : method A := λ self,
  match r with
  | Ok a => Ok (a, self)
  | Raise e => Raise e
  end.

(** [m(x)] for an attribute value [m]. *)
Definition call (m : value) (x : T) : method T :=
  match m with
  | VModule l => lift (forward_layer l x)
  | _ => raise (TypeError "object is not callable")
  end.

(** [m.add] for an attribute value [m]: the bound method, looked up before
    its arguments are evaluated. *)
Definition get_add (m : value) : method (T → T → result T) :=
  match m with
  | VModule FloatFunctional => mret add
  | _ => raise (AttributeError "object" "add")
  end.

(** Truth value of an attribute value in [if]. *)
Definition truthy (v : value) : bool :=
  match v with
  | VBool b => b
  | VInt z => negb (bool_decide (z = 0))
  | VModule _ => true
  end.

(** [InvertedResidual.forward] (mobilenetv2.py:76-80) *)
Definition InvertedResidual_forward (x : T) : method T :=
  use_res_connect ← getattr "use_res_connect";
  if truthy use_res_connect then
    skip_add ← getattr "skip_add";
    skip_add_add ← get_add skip_add;
    conv ← getattr "conv";
    y ← call conv x;
    lift (skip_add_add x y)
  else
    conv ← getattr "conv";
    call conv x.

(** [m(x)] for a child of [features]. *)
Definition forward_submodule (m : submodule) (x : T) : result T :=
  match m with
  | Layer l => forward_layer l x
  | Instance self =>
      '(y, _) ← InvertedResidual_forward x self; Ok y
  end.

(** [MobileNetV2.forward] (mobilenetv2.py:154-161) *)
Definition MobileNetV2_forward (self : MobileNetV2_object) (x : T) : result T :=
  x ← forward_layer (quant self) x;
  x ← for_each forward_submodule (features self) x;
  x ← mean [2; 3] x;
  x ← forward_layer (classifier self) x;
  x ← forward_layer (dequant self) x;
  Ok x.
End Forward.

(** *** Tensors as shapes

    The framework's shape rules: a 2-d convolution maps [(N, C, H, W)] with
    [C = in_channels] to [(N, out_channels, H', W')] where
    [H' = (H + 2 * padding - kernel_size) // stride + 1]; normalisation,
    activation, dropout and the quantization stubs keep the shape; a linear
    layer replaces the last dimension; [mean] drops the reduced
    dimensions; [add] is taken on equal shapes only. *)

Definition conv_out (size kernel_size stride padding : Z) : Z :=
  (size + 2 * padding - kernel_size) / stride + 1.

Definition shape_conv2d (i o k s p g : Z) (x : list Z) : result (list Z) :=
  match x with
  | [n; c; h; w] =>
      if bool_decide (c = i ∧ 0 < s ∧ k ≤ h + 2 * p ∧ k ≤ w + 2 * p)
      then Ok [n; o; conv_out h k s p; conv_out w k s p]
      else Raise (RuntimeError "conv2d: shape mismatch")
  | _ => Raise (RuntimeError "conv2d: expected 4D input")
  end.

Definition shape_batch_norm (c' : Z) (x : list Z) : result (list Z) :=
  match x with
  | [n; c; h; w] =>
      if bool_decide (c = c') then Ok x
      else Raise (RuntimeError "batch_norm: channel mismatch")
  | _ => Raise (RuntimeError "batch_norm: expected 4D input")
  end.

Definition shape_linear (i o : Z) (x : list Z) : result (list Z) :=
  match reverse x with
  | d :: ds =>
      if bool_decide (d = i) then Ok (reverse (o :: ds))
      else Raise (RuntimeError "linear: shape mismatch")
  | [] => Raise (RuntimeError "linear: expected at least 1D input")
  end.

Definition shape_add (x y : list Z) : result (list Z) :=
  if bool_decide (x = y) then Ok x
  else Raise (RuntimeError "add: shape mismatch").

Definition shape_mean (dims : list Z) (x : list Z) : result (list Z) :=
  let ndim := Z.of_nat (length x) in
  if bool_decide (Forall (λ d, 0 ≤ d < ndim) dims)
  then Ok (omap (λ '(j, d), if bool_decide (Z.of_nat j ∈ dims) then None else Some d)
                (imap pair x))
  else Raise (RuntimeError "mean: dimension out of range").

#[export] Instance shape_tensor : Tensor (list Z) := {|
  conv2d := shape_conv2d;
  batch_norm := shape_batch_norm;
  relu := Ok;
  dropout := λ _, Ok;
  linear := shape_linear;
  add := shape_add;
  mean := shape_mean;
  quantize := Ok;
  dequantize := Ok
|}.

(** *** Tensors as expressions

    The free interpretation: a tensor is the expression that computes
    it. *)

Inductive expr : Type :=
  | Input
  | EConv2d (i o k s p g : Z) (x : expr)
  | EBatchNorm (c : Z) (x : expr)
  | ERelu (x : expr)
  | EDropout (p : Q) (x : expr)
  | ELinear (i o : Z) (x : expr)
  | EAdd (x y : expr)
  | EMean (dims : list Z) (x : expr)
  | EQuantize (x : expr)
  | EDequantize (x : expr).

#[export] Instance expr_tensor : Tensor expr := {|
  conv2d := λ i o k s p g x, Ok (EConv2d i o k s p g x);
  batch_norm := λ c x, Ok (EBatchNorm c x);
  relu := λ x, Ok (ERelu x);
  dropout := λ p x, Ok (EDropout p x);
  linear := λ i o x, Ok (ELinear i o x);
  add := λ x y, Ok (EAdd x y);
  mean := λ dims x, Ok (EMean dims x);
  quantize := λ x, Ok (EQuantize x);
  dequantize := λ x, Ok (EDequantize x)
|}.

(** *** Reading a result expression

    [subexpr a e]: the node [a] occurs in [e].  A node is computed inside
    the quant-to-dequant bracket of [e] when a dequantization of [e]
    consumes it and it consumes a quantization. *)

Fixpoint subexpr (a e : expr) : Prop :=
  a = e ∨
  match e with
  | Input => False
  | EConv2d _ _ _ _ _ _ x | EBatchNorm _ x | ERelu x | EDropout _ x
  | ELinear _ _ x | EMean _ x | EQuantize x | EDequantize x => subexpr a x
  | EAdd x y => subexpr a x ∨ subexpr a y
  end.

Definition inside_bracket (m e : expr) : Prop :=
  ∃ d q, subexpr (EDequantize d) e ∧ subexpr m d ∧ subexpr (EQuantize q) m.

(** Every spatial mean of [e] is computed outside the bracket. *)
Definition mean_outside_bracket (e : expr) : Prop :=
  ∀ y, subexpr (EMean [2; 3] y) e → ¬ inside_bracket (EMean [2; 3] y) e.

(** *** Reading a [features] container *)

Definition is_InvertedResidual (m : submodule) : bool :=
  match m with
  | Instance self => bool_decide (cls self = "InvertedResidual")
  | Layer _ => false
  end.

Definition is_ConvBnReLU (m : submodule) : bool :=
  match m with
  | Layer (Sequential [Conv2d _ _ _ _ _ _ false; BatchNorm2d _ _; ReLU _]) => true
  | _ => false
  end.

Definition count (P : submodule → bool) (ms : list submodule) : nat :=
  length (filter (λ m, P m = true) ms).

(** * Properties *)

(** ** Python arithmetic *)

Lemma Qltb_lt (x y : Q) : Qltb x y = true ↔ (x < y)%Q.
Proof.
  unfold Qltb. rewrite Qlt_alt. destruct (x ?= y)%Q; split; congruence.
Qed.

Lemma Qltb_inject_Z (a v : Z) :
  Qltb (inject_Z a) ((9 # 10) * inject_Z v) = true ↔ 10 * a < 9 * v.
Proof.
  rewrite Qltb_lt. unfold Qlt, Qmult, inject_Z; simpl. lia.
Qed.

Lemma int_half_up (v divisor : Z) :
  int (inject_Z v + inject_Z divisor / 2) = Z.quot (2 * v + divisor) 2.
Proof.
  unfold int, Qplus, Qdiv, Qmult, Qinv, inject_Z; simpl.
  f_equal; lia.
Qed.

Lemma floordiv_Ok (a b : Z) : b ≠ 0 → floordiv a b = Ok (a / b).
Proof. intros Hb. unfold floordiv. by rewrite decide_False. Qed.

(** ** Channel rounder *)

Example make_divisible_32_8 : _make_divisible 32 8 None = Ok 32.
Proof. reflexivity. Qed.

Example make_divisible_17_8 : _make_divisible 17 8 None = Ok 16.
Proof. reflexivity. Qed.

Example make_divisible_zero_divisor :
  _make_divisible 32 0 None = Raise ZeroDivisionError.
Proof. reflexivity. Qed.

(** The rounder is total for a non-zero divisor; this is its value. *)
Lemma make_divisible_eq (v : Q) (divisor : Z) (min_value : option Z) :
  divisor ≠ 0 →
  _make_divisible v divisor min_value
  = Ok (let new_v := Z.max (default divisor min_value)
                           (int (v + inject_Z divisor / 2) / divisor * divisor) in
        if Qltb (inject_Z new_v) ((9 # 10) * v) then new_v + divisor else new_v).
Proof.
  intros Hd. unfold _make_divisible. by rewrite floordiv_Ok.
Qed.

(** The only exception the rounder raises is [ZeroDivisionError]. *)
Lemma make_divisible_Raise (v : Q) (divisor : Z) (min_value : option Z) (e : exn) :
  _make_divisible v divisor min_value = Raise e → e = ZeroDivisionError.
Proof.
  unfold _make_divisible, floordiv. case_decide; simpl; congruence.
Qed.

(** A floor that is a multiple of the divisor keeps the result one. *)
Lemma make_divisible_divide (v : Q) (divisor : Z) (min_value : option Z) :
  divisor ≠ 0 →
  (divisor | default divisor min_value) →
  ∃ r, _make_divisible v divisor min_value = Ok r ∧ (divisor | r).
Proof.
  intros Hd Hm. rewrite make_divisible_eq by done. eexists; split; [done|].
  cbv zeta.
  assert (divisor | Z.max (default divisor min_value)
                          (int (v + inject_Z divisor / 2) / divisor * divisor)) as Hmax.
  { apply Z.max_case; [done|]. apply Z.divide_factor_r. }
  case_match; [|done].
  apply Z.divide_add_r; [done|]. apply Z.divide_refl.
Qed.



Example make_divisible_1_8_10 : _make_divisible 1 8 (Some 10) = Ok 10.
Proof. reflexivity. Qed.

(** Far enough below zero the rounded target drops under any floor, and
    the floor itself is returned. *)
Lemma make_divisible_returns_min_value (divisor m : Z) :
  0 < divisor →
  _make_divisible (inject_Z (2 * Z.min m 0 - divisor)) divisor (Some m) = Ok m.
Proof.
  intros Hd. rewrite make_divisible_eq by lia. cbv zeta. simpl default.
  rewrite int_half_up.
  set (q := Z.quot (2 * (2 * Z.min m 0 - divisor) + divisor) 2).
  assert (q ≤ 2 * Z.min m 0) as Hq.
  { subst q. Z.to_euclidean_division_equations. lia. }
  pose proof (Z.mul_div_le q divisor Hd) as Hlo.
  rewrite Z.max_l by lia.
  destruct (Qltb _ _) eqn:Hlt; [|done].
  apply Qltb_inject_Z in Hlt. lia.
Qed.

(** C9: with an explicit [min_value] that is not a multiple of [divisor]
    the rounder can return [min_value] itself, as at [v = 1],
    [divisor = 8], [min_value = 10]; the result is a multiple of [divisor]
    for every target when [min_value] is left at its default or is a
    multiple of [divisor], and only then. *)
Theorem make_divisible_min_value :
  (_make_divisible 1 8 (Some 10) = Ok 10 ∧ ¬ (8 | 10))
  ∧ (∀ (v : Q) (divisor : Z), divisor ≠ 0 →
       ∃ r, _make_divisible v divisor None = Ok r ∧ (divisor | r))
  ∧ (∀ (v : Q) (divisor m : Z), divisor ≠ 0 → (divisor | m) →
       ∃ r, _make_divisible v divisor (Some m) = Ok r ∧ (divisor | r))
  ∧ (∀ divisor m : Z, 0 < divisor → ¬ (divisor | m) →
       ∃ (v : Z) (r : Z),
         _make_divisible (inject_Z v) divisor (Some m) = Ok r ∧ r = m
         ∧ ¬ (divisor | r)).
Proof.
  repeat split.
  - intros [k Hk]. lia.
  - intros v d Hd. apply make_divisible_divide; [done|]. apply Z.divide_refl.
  - intros v d m Hd Hm. by apply make_divisible_divide.
  - intros d m Hd Hm. exists (2 * Z.min m 0 - d), m.
    by rewrite make_divisible_returns_min_value.
Qed.

(** The three general parts at concrete inputs. *)
Lemma make_divisible_min_value_witness :
  (∃ r, _make_divisible 17 8 None = Ok r ∧ (8 | r))
  ∧ (∃ r, _make_divisible 17 8 (Some 24) = Ok r ∧ (8 | r))
  ∧ (∃ (v : Z) (r : Z),
       _make_divisible (inject_Z v) 8 (Some 10) = Ok r ∧ r = 10 ∧ ¬ (8 | r)).
Proof.
  destruct make_divisible_min_value as (_ & Hdef & Hmul & Hnot).
  split; [|split].
  - apply (Hdef 17%Q 8). lia.
  - apply (Hmul 17%Q 8 24); [lia | by exists 3].
  - apply (Hnot 8 10); [lia | intros [k Hk]; lia].
Defined.

(** The literal [0.9] is the correctly rounded quotient of 9 by 10. *)
Example nine_tenths_nearest :
  Binary64.nine_tenths
  = SFdiv Binary64.prec Binary64.emax
      (binary_normalize Binary64.prec Binary64.emax 9 0 false)
      (binary_normalize Binary64.prec Binary64.emax 10 0 false).
Proof. reflexivity. Qed.

Lemma forallb_seqZ (f : Z → bool) (a n x : Z) :
  forallb f (seqZ a n) = true → a ≤ x < a + n → f x = true.
Proof.
  rewrite forallb_forall. intros Hall Hx.
  apply Hall, list_elem_of_In, elem_of_seqZ. lia.
Qed.

Lemma rounders_agree_eq (v divisor : Z) (min_value : option Z) :
  rounders_agree v divisor min_value = true →
  (x ← Binary64.of_int v; Binary64._make_divisible x divisor min_value)
  = _make_divisible (inject_Z v) divisor min_value.
Proof.
  unfold rounders_agree. repeat case_match; try done.
  by intros ->%bool_decide_eq_true.
Qed.

(** The exact rounder agrees with its binary64 evaluation on every integer
    target in [1, 256] and divisor in [1, 8] at the default floor. *)
Lemma rounders_agree_default (v divisor : Z) :
  1 ≤ v ≤ 256 → 1 ≤ divisor ≤ 8 →
  (x ← Binary64.of_int v; Binary64._make_divisible x divisor None)
  = _make_divisible (inject_Z v) divisor None.
Proof.
  intros Hv Hd. apply rounders_agree_eq.
  assert (forallb (λ v, forallb (λ d, rounders_agree v d None) (seqZ 1 8))
                  (seqZ 1 256) = true) as Hall
    by (vm_cast_no_check (eq_refl true)).
  apply (forallb_seqZ _ 1 256 v) in Hall; [|lia].
  apply (forallb_seqZ _ 1 8 divisor) in Hall; [done | lia].
Qed.

(** The same with an explicit floor: targets in [-16, 16], divisors in
    [1, 8] and floors in [-4, 12]. *)
Lemma rounders_agree_min_value (v divisor m : Z) :
  -16 ≤ v ≤ 16 → 1 ≤ divisor ≤ 8 → -4 ≤ m ≤ 12 →
  (x ← Binary64.of_int v; Binary64._make_divisible x divisor (Some m))
  = _make_divisible (inject_Z v) divisor (Some m).
Proof.
  intros Hv Hd Hm. apply rounders_agree_eq.
  assert (forallb (λ v, forallb (λ d, forallb (λ m, rounders_agree v d (Some m))
                                         (seqZ (-4) 17))
                                (seqZ 1 8))
                  (seqZ (-16) 33) = true) as Hall
    by (vm_cast_no_check (eq_refl true)).
  apply (forallb_seqZ _ (-16) 33 v) in Hall; [|lia].
  apply (forallb_seqZ _ 1 8 divisor) in Hall; [|lia].
  apply (forallb_seqZ _ (-4) 17 m) in Hall; [done | lia].
Qed.

(** ** Inverted residual block *)

Example InvertedResidual_16_16_1_1 :
  InvertedResidual 16 16 1 1 = Raise (AttributeError "InvertedResidual" "stride").
Proof. reflexivity. Qed.

Example InvertedResidual_16_16_3_1 :
  InvertedResidual 16 16 3 1 = Raise AssertionError.
Proof. reflexivity. Qed.

Example InvertedResidual_spec_16_16_1_1 :
  is_Ok (InvertedResidual_spec 16 16 1 1) = true.
Proof. reflexivity. Qed.

(** Lines 40-41 on a fresh instance: the stride assertion decides whether
    [__init__] goes on, and leaves the instance as [nn.Module.__init__]
    made it. *)
Lemma InvertedResidual_init_prefix (stride : Z) :
  (Module_init;; assert (bool_decide (stride ∈ [1; 2])))
    (PyObject "InvertedResidual" [] [])
  = if bool_decide (stride ∈ [1; 2])
    then Ok ((), PyObject "InvertedResidual" [("training", VBool true)] [])
    else Raise AssertionError.
Proof.
  unfold mbind, method_bind, Module_init, assert.
  by destruct (bool_decide _).
Qed.

Lemma InvertedResidual_init_prefix_bind {A} (stride : Z) (rest : method A) :
  (Module_init;; assert (bool_decide (stride ∈ [1; 2]));; rest)
    (PyObject "InvertedResidual" [] [])
  = if bool_decide (stride ∈ [1; 2])
    then rest (PyObject "InvertedResidual" [("training", VBool true)] [])
    else Raise AssertionError.
Proof.
  unfold mbind, method_bind, Module_init, assert.
  by destruct (bool_decide _).
Qed.

(** C1: for a stride in {1, 2}, [InvertedResidual.__init__] reads
    [self.stride] when no assignment to it has occurred (the instance holds
    no such attribute after lines 40-43), so the construction raises the
    attribute-access error and yields no block. *)
Theorem InvertedResidual_raises_AttributeError
    (in_planes out_planes stride : Z) (expand_ratio : Q) :
  stride = 1 ∨ stride = 2 →
  (∃ self,
     (Module_init;; assert (bool_decide (stride ∈ [1; 2])))
       (PyObject "InvertedResidual" [] []) = Ok ((), self)
     ∧ dict_get "stride" (attrs self) = None
     ∧ dict_get "stride" (modules self) = None)
  ∧ InvertedResidual in_planes out_planes stride expand_ratio
    = Raise (AttributeError "InvertedResidual" "stride")
  ∧ ∀ b, InvertedResidual in_planes out_planes stride expand_ratio ≠ Ok b.
Proof.
  intros Hs.
  assert (InvertedResidual in_planes out_planes stride expand_ratio
          = Raise (AttributeError "InvertedResidual" "stride")) as Hraise.
  { by destruct Hs as [-> | ->]. }
  split; [|split; [done | by rewrite Hraise]].
  rewrite InvertedResidual_init_prefix.
  eexists; split; [by destruct Hs as [-> | ->] | done].
Qed.

Lemma InvertedResidual_raises_AttributeError_witness :
  InvertedResidual 32 16 2 6 = Raise (AttributeError "InvertedResidual" "stride").
Proof.
  apply (InvertedResidual_raises_AttributeError 32 16 2 6). by right.
Defined.

(** C10: for a stride outside {1, 2}, [InvertedResidual.__init__] fails its
    assertion, before the read of [self.stride]: the construction raises
    [AssertionError], not the attribute-access error. *)
Theorem InvertedResidual_invalid_stride
    (in_planes out_planes stride : Z) (expand_ratio : Q) :
  stride ≠ 1 → stride ≠ 2 →
  InvertedResidual in_planes out_planes stride expand_ratio = Raise AssertionError.
Proof.
  intros H1 H2.
  unfold InvertedResidual, new, InvertedResidual_init.
  rewrite InvertedResidual_init_prefix_bind.
  rewrite bool_decide_eq_false_2; [done|].
  rewrite !elem_of_cons, elem_of_nil. tauto.
Qed.

Lemma InvertedResidual_invalid_stride_witness :
  InvertedResidual 32 16 3 6 = Raise AssertionError.
Proof.
  apply (InvertedResidual_invalid_stride 32 16 3 6); lia.
Defined.

(** No call of the constructor returns: it raises one of two errors. *)
Lemma InvertedResidual_Raise
    (in_planes out_planes stride : Z) (expand_ratio : Q) :
  InvertedResidual in_planes out_planes stride expand_ratio
  = Raise (if bool_decide (stride ∈ [1; 2])
           then AttributeError "InvertedResidual" "stride"
           else AssertionError).
Proof.
  unfold InvertedResidual, new, InvertedResidual_init.
  rewrite InvertedResidual_init_prefix_bind.
  by destruct (bool_decide _).
Qed.

(** The block of the specification's wording is constructed for every
    stride in {1, 2}, and its forward applies the shortcut exactly when
    [stride == 1] and [in_planes == out_planes]. *)
Lemma InvertedResidual_spec_forward
    (in_planes out_planes stride : Z) (expand_ratio : Q) (x : expr) :
  stride = 1 ∨ stride = 2 →
  ∃ b conv y,
    InvertedResidual_spec in_planes out_planes stride expand_ratio = Ok b
    ∧ dict_get "conv" (modules b) = Some conv
    ∧ forward_layer conv x = Ok y
    ∧ forward_submodule (Instance b) x
      = Ok (if bool_decide (stride = 1 ∧ in_planes = out_planes)
            then EAdd x y else y).
Proof.
  intros Hs.
  unfold InvertedResidual_spec, new, InvertedResidual_spec_init.
  rewrite InvertedResidual_init_prefix_bind.
  rewrite bool_decide_eq_true_2
    by (rewrite !elem_of_cons; destruct Hs; auto).
  destruct (Qeq_bool expand_ratio 1);
    (do 3 eexists; split; [reflexivity|]; split; [reflexivity|];
     split; [reflexivity|]);
    unfold forward_submodule, InvertedResidual_forward;
    rewrite <- bool_decide_and;
    by destruct (bool_decide (stride = 1 ∧ in_planes = out_planes)).
Qed.

(** C4, at [InvertedResidual(16, 16, 1, 1)] on an input [x]: the source
    raises in the constructor, so no forward computation takes place and
    no shortcut is applied, and so it is for every other construction;
    the block of the specification's wording returns [x + conv(x)]. *)
Theorem InvertedResidual_shortcut_never_applied :
  (b ← InvertedResidual 16 16 1 1; forward_submodule (Instance b) Input)
  = Raise (AttributeError "InvertedResidual" "stride")
  ∧ (∀ (in_planes out_planes stride : Z) (expand_ratio : Q) (x : expr),
       ∃ e, (b ← InvertedResidual in_planes out_planes stride expand_ratio;
             forward_submodule (Instance b) x) = Raise e)
  ∧ (b ← InvertedResidual_spec 16 16 1 1; forward_submodule (Instance b) Input)
    = Ok (EAdd Input
            (EBatchNorm 16 (EConv2d 16 16 1 1 0 1
               (ERelu (EBatchNorm 16 (EConv2d 16 16 3 1 1 16 Input)))))).
Proof.
  split; [reflexivity|]. split; [|reflexivity].
  intros in_planes out_planes stride expand_ratio x.
  rewrite InvertedResidual_Raise. by eexists.
Qed.

(** ** Loops *)

Lemma bind_Ok {A B} (a : A) (f : A → result B) : Ok a ≫= f = f a.
Proof. reflexivity. Qed.

Lemma bind_step {A B} (m : result A) (f : A → result B) (a : A) (r : result B) :
  m = Ok a → f a = r → m ≫= f = r.
Proof. by intros -> <-. Qed.

Lemma for_each_cons {A S} (body : A → S → result S) (x : A) (xs : list A) (st : S) :
  for_each body (x :: xs) st = body x st ≫= for_each body xs.
Proof. reflexivity. Qed.

Lemma for_each_step {A S} (body : A → S → result S) (x : A) (xs : list A)
    (st st' : S) (r : result S) :
  body x st = Ok st' → for_each body xs st' = r → for_each body (x :: xs) st = r.
Proof. intros Hx <-. by rewrite for_each_cons, Hx. Qed.

Lemma seqZ_0_pos (n : Z) : 0 < n → seqZ 0 n = 0 :: seqZ 1 (n - 1).
Proof.
  intros Hn. replace n with (Z.succ (n - 1)) at 1 by lia.
  rewrite seqZ_cons by lia. do 2 f_equal; lia.
Qed.

(** ** Network assembler *)

Example MobileNetV2_default :
  MobileNetV2 1000 1 None 8 = Raise (AttributeError "InvertedResidual" "stride").
Proof. reflexivity. Qed.

Example MobileNetV2_empty :
  MobileNetV2 1000 1 (Some []) 8 = Raise (ValueError_setting []).
Proof. reflexivity. Qed.

Example MobileNetV2_short_entry :
  MobileNetV2 1000 1 (Some [[6; 24; 2]]) 8 = Raise (ValueError_setting [[6; 24; 2]]).
Proof. reflexivity. Qed.

Example MobileNetV2_no_blocks (num_classes : Z) :
  MobileNetV2 num_classes 1 (Some [[1; 16; 0; 1]]) 8
  = Ok (block_free_network num_classes).
Proof. reflexivity. Qed.

Lemma setting_check (setting : list (list Z)) :
  bool_decide (length setting = 0%nat)
  || negb (bool_decide (length (nth 0 setting []) = 4%nat)) = true
  ↔ first_entry_malformed setting.
Proof.
  unfold first_entry_malformed. destruct setting as [|e rest]; simpl.
  - split; [by left | done].
  - rewrite negb_true_iff, bool_decide_eq_false. split.
    + intros He. right. by exists e.
    + intros [? | (e' & [= <-] & He)]; done.
Qed.

Lemma stage_body_eq (block : Z → Z → Z → Q → result pyobject)
    (t s output_channel i : Z) (features : list submodule) (input_channel : Z) :
  stage_body block t s output_channel i (features, input_channel)
  = b ← block input_channel output_channel
              (if bool_decide (i = 0) then s else 1) (inject_Z t);
    Ok (features ++ [Instance b], output_channel).
Proof. reflexivity. Qed.

(** Line 127 over the source's block raises. *)
Lemma stage_body_source (t s output_channel i : Z) (st : list submodule * Z) :
  stage_body InvertedResidual t s output_channel i st
  = Raise (if bool_decide ((if bool_decide (i = 0) then s else 1) ∈ [1; 2])
           then AttributeError "InvertedResidual" "stride"
           else AssertionError).
Proof.
  destruct st as [fs ic].
  by rewrite stage_body_eq, InvertedResidual_Raise.
Qed.

(** One stage over the source's block: nothing is appended; a positive
    repeat count raises at the first block. *)
Lemma stage_loop_source (t s output_channel n : Z) (st : list submodule * Z) :
  for_each (stage_body InvertedResidual t s output_channel) (seqZ 0 n) st
  = if bool_decide (0 < n)
    then Raise (if bool_decide (s ∈ [1; 2])
                then AttributeError "InvertedResidual" "stride"
                else AssertionError)
    else Ok st.
Proof.
  case_bool_decide as Hn.
  - rewrite seqZ_0_pos by done.
    by rewrite for_each_cons, stage_body_source.
  - by rewrite seqZ_nil by lia.
Qed.

(** The loop over the schedule, with the source's block: it never raises
    the error of line 113, and when it ends it has appended nothing. *)
Lemma setting_loop_source (width_mult : Q) (round_nearest : Z)
    (setting : list (list Z)) (st : list submodule * Z) :
  match for_each (setting_body InvertedResidual width_mult round_nearest) setting st with
  | Ok st' => st' = st
  | Raise e => ∀ v, e ≠ ValueError_setting v
  end.
Proof.
  induction setting as [|entry rest IH]; [done|].
  rewrite for_each_cons.
  destruct (setting_body _ _ _ entry st) as [st'|e] eqn:Hbody; simpl.
  - assert (st' = st) as ->; [|done].
    unfold setting_body in Hbody.
    destruct entry as [|t [|c [|n [|s [|]]]]]; try done.
    destruct (_make_divisible _ _ _) as [oc|]; [|done]. simpl in Hbody.
    rewrite stage_loop_source in Hbody. case_bool_decide; congruence.
  - intros v ->. unfold setting_body in Hbody.
    destruct entry as [|t [|c [|n [|s [|]]]]]; try done.
    destruct (_make_divisible _ _ _) as [oc|e] eqn:Hmd; simpl in Hbody.
    + rewrite stage_loop_source in Hbody. repeat case_bool_decide; congruence.
    + apply make_divisible_Raise in Hmd. congruence.
Qed.

(** A malformed entry anywhere makes the loop raise, whatever the block. *)
Lemma setting_loop_malformed (block : Z → Z → Z → Q → result pyobject)
    (width_mult : Q) (round_nearest : Z)
    (setting : list (list Z)) (st : list submodule * Z) :
  Exists (λ e, length e ≠ 4%nat) setting →
  ∃ e, for_each (setting_body block width_mult round_nearest) setting st = Raise e.
Proof.
  intros Hex. revert st. induction Hex as [entry rest He | entry rest _ IH]; intros st.
  - rewrite for_each_cons.
    assert (setting_body block width_mult round_nearest entry st
            = Raise (ValueError_unpack 4 (length entry))) as ->; [|by eexists].
    unfold setting_body. by destruct entry as [|t [|c [|n [|s [|]]]]].
  - rewrite for_each_cons.
    destruct (setting_body _ _ _ entry st) as [st'|e]; simpl; [apply IH | by eexists].
Qed.

(** The constructor, past the check of line 112. *)
Lemma MobileNetV2_unfold (block : Z → Z → Z → Q → result pyobject)
    (num_classes : Z) (width_mult : Q) (setting : list (list Z)) (round_nearest : Z) :
  MobileNetV2_with_block block num_classes width_mult (Some setting) round_nearest
  = if bool_decide (length setting = 0%nat)
       || negb (bool_decide (length (nth 0 setting []) = 4%nat))
    then Raise (ValueError_setting setting)
    else
      input_channel ← _make_divisible (inject_Z 32 * width_mult) round_nearest None;
      self_last_channel ←
        _make_divisible (inject_Z 1280 * Qmax 1 width_mult) round_nearest None;
      '(features, input_channel) ←
        for_each (setting_body block width_mult round_nearest) setting
                 ([Layer (ConvBnReLU 3 input_channel 3 2 1)], input_channel);
      Ok {| last_channel := self_last_channel;
            features :=
              features ++ [Layer (ConvBnReLU input_channel self_last_channel 1 1 1)];
            quant := QuantStub;
            dequant := DeQuantStub;
            classifier := Sequential [Dropout (1 # 5);
                                      Linear self_last_channel num_classes] |}.
Proof. reflexivity. Qed.

(** C2, as the code has it: the documented [ValueError] is raised if and
    only if the schedule is empty or its first entry does not have exactly
    4 fields, and it then carries the schedule; a schedule with an entry of
    another length at any position is never constructed, but past the first
    entry it fails with another error. *)
Theorem MobileNetV2_setting_validation
    (num_classes : Z) (width_mult : Q) (setting : list (list Z)) (round_nearest : Z) :
  ((∃ v, MobileNetV2 num_classes width_mult (Some setting) round_nearest
         = Raise (ValueError_setting v))
   ↔ first_entry_malformed setting)
  ∧ (first_entry_malformed setting →
     MobileNetV2 num_classes width_mult (Some setting) round_nearest
     = Raise (ValueError_setting setting))
  ∧ (Exists (λ e, length e ≠ 4%nat) setting →
     ∃ e, MobileNetV2 num_classes width_mult (Some setting) round_nearest = Raise e).
Proof.
  unfold MobileNetV2. rewrite MobileNetV2_unfold.
  pose proof (setting_check setting) as Hcheck.
  destruct (_ || _).
  - split; [|split].
    + split; [intros _; by apply Hcheck | by eexists].
    + done.
    + by eexists.
  - assert (¬ first_entry_malformed setting) as Hwf.
    { intros H. by apply Hcheck in H. }
    destruct (_make_divisible (inject_Z 32 * width_mult) round_nearest None)
      as [ic|e1] eqn:H1; simpl.
    2: { apply make_divisible_Raise in H1 as ->.
         split; [|split]; [split|..]; [by intros [? ?] | done | done | by eexists]. }
    destruct (_make_divisible (inject_Z 1280 * Qmax 1 width_mult) round_nearest None)
      as [lc|e2] eqn:H2; simpl.
    2: { apply make_divisible_Raise in H2 as ->.
         split; [|split]; [split|..]; [by intros [? ?] | done | done | by eexists]. }
    pose proof (setting_loop_source width_mult round_nearest setting
                  ([Layer (ConvBnReLU 3 ic 3 2 1)], ic)) as Hloop.
    split; [|split]; [split|..].
    + intros [v Hv].
      destruct (for_each _ setting _) as [[fs ic']|e]; simpl in Hv; [done|].
      injection Hv as ->. by destruct (Hloop v).
    + done.
    + done.
    + intros Hex.
      destruct (setting_loop_malformed InvertedResidual width_mult round_nearest
                  setting ([Layer (ConvBnReLU 3 ic 3 2 1)], ic) Hex) as [e ->].
      by eexists.
Qed.

(** The validation at a schedule whose only entry has three fields. *)
Lemma MobileNetV2_setting_validation_witness :
  MobileNetV2 1000 1 (Some [[6; 24; 2]]) 8 = Raise (ValueError_setting [[6; 24; 2]])
  ∧ ∃ e, MobileNetV2 1000 1 (Some [[1; 16; 0; 1]; [6; 24; 2]]) 8 = Raise e.
Proof.
  split.
  - apply (MobileNetV2_setting_validation 1000 1 [[6; 24; 2]] 8).
    right. exists [6; 24; 2]. split; [reflexivity | simpl; lia].
  - apply (MobileNetV2_setting_validation 1000 1 [[1; 16; 0; 1]; [6; 24; 2]] 8).
    apply Exists_cons_tl, Exists_cons_hd. simpl; lia.
Defined.

(** C2 as stated fails: these schedules hold a three-field entry after a
    well-formed first one, and neither construction raises the documented
    [ValueError]; one fails unpacking the entry at line 123, the other
    fails earlier, in the first block. *)
Lemma MobileNetV2_later_entry_unchecked :
  Exists (λ e, length e ≠ 4%nat) [[1; 16; 0; 1]; [6; 24; 2]]
  ∧ MobileNetV2 1000 1 (Some [[1; 16; 0; 1]; [6; 24; 2]]) 8
    = Raise (ValueError_unpack 4 3)
  ∧ (¬ ∃ v, MobileNetV2 1000 1 (Some [[1; 16; 0; 1]; [6; 24; 2]]) 8
            = Raise (ValueError_setting v))
  ∧ Exists (λ e, length e ≠ 4%nat) [[1; 16; 1; 1]; [6; 24; 2]]
  ∧ MobileNetV2 1000 1 (Some [[1; 16; 1; 1]; [6; 24; 2]]) 8
    = Raise (AttributeError "InvertedResidual" "stride")
  ∧ (¬ ∃ v, MobileNetV2 1000 1 (Some [[1; 16; 1; 1]; [6; 24; 2]]) 8
            = Raise (ValueError_setting v)).
Proof.
  repeat split.
  - apply Exists_cons_tl, Exists_cons_hd. simpl; lia.
  - by intros [v Hv].
  - apply Exists_cons_tl, Exists_cons_hd. simpl; lia.
  - by intros [v Hv].
Qed.

(** Every network the source's constructor returns is a stem followed by
    the head projection: no inverted residual block is part of it. *)
Lemma MobileNetV2_Ok_features
    (num_classes : Z) (width_mult : Q) (setting : option (list (list Z)))
    (round_nearest : Z) (net : MobileNetV2_object) :
  MobileNetV2 num_classes width_mult setting round_nearest = Ok net →
  ∃ input_channel,
    net = {| last_channel := last_channel net;
             features := [Layer (ConvBnReLU 3 input_channel 3 2 1);
                          Layer (ConvBnReLU input_channel (last_channel net) 1 1 1)];
             quant := QuantStub;
             dequant := DeQuantStub;
             classifier := Sequential [Dropout (1 # 5);
                                       Linear (last_channel net) num_classes] |}.
Proof.
  change (MobileNetV2 num_classes width_mult setting round_nearest)
    with (MobileNetV2 num_classes width_mult
            (Some (default default_inverted_residual_setting setting)) round_nearest).
  generalize (default default_inverted_residual_setting setting).
  clear setting; intros setting.
  unfold MobileNetV2. rewrite MobileNetV2_unfold.
  destruct (_ || _); [done|].
  destruct (_make_divisible (inject_Z 32 * width_mult) round_nearest None)
    as [ic|]; [simpl | done].
  destruct (_make_divisible (inject_Z 1280 * Qmax 1 width_mult) round_nearest None)
    as [lc|]; [simpl | done].
  pose proof (setting_loop_source width_mult round_nearest setting
                ([Layer (ConvBnReLU 3 ic 3 2 1)], ic)) as Hloop.
  destruct (for_each _ setting _) as [[fs ic']|]; [simpl | done].
  injection Hloop as -> ->. intros [= <-]. by exists ic.
Qed.

(** The block of the specification's wording is constructed for every
    stride in {1, 2}. *)
Lemma InvertedResidual_spec_Ok
    (in_planes out_planes stride : Z) (expand_ratio : Q) :
  stride ∈ [1; 2] →
  ∃ b, InvertedResidual_spec in_planes out_planes stride expand_ratio = Ok b
       ∧ cls b = "InvertedResidual".
Proof.
  intros Hs.
  unfold InvertedResidual_spec, new, InvertedResidual_spec_init.
  rewrite InvertedResidual_init_prefix_bind, bool_decide_eq_true_2 by done.
  by eexists.
Qed.

(** Lines 125-128 over the block of the specification's wording, for any
    run of indices: one block per index, the first fed by the incoming
    channel count and every later one by [output_channel]; the stride is
    [s] at index 0 and 1 elsewhere. *)
Lemma stage_loop_spec (t s output_channel : Z) (indices : list Z)
    (features : list submodule) (input_channel : Z) :
  s ∈ [1; 2] →
  ∃ blocks,
    for_each (stage_body InvertedResidual_spec t s output_channel) indices
             (features, input_channel)
    = Ok (features ++ (Instance <$> blocks),
          if indices is [] then input_channel else output_channel)
    ∧ length blocks = length indices
    ∧ ∀ (j : nat) (i : Z) b,
        indices !! j = Some i → blocks !! j = Some b →
        InvertedResidual_spec (if j is O then input_channel else output_channel)
                              output_channel
                              (if bool_decide (i = 0) then s else 1)
                              (inject_Z t) = Ok b.
Proof.
  intros Hs. revert features input_channel.
  induction indices as [|i indices IH]; intros features input_channel.
  - exists []. simpl. by rewrite app_nil_r.
  - rewrite for_each_cons, stage_body_eq.
    destruct (InvertedResidual_spec_Ok input_channel output_channel
                (if bool_decide (i = 0) then s else 1) (inject_Z t))
      as (b & Hb & _).
    { case_bool_decide; [done|]. rewrite !elem_of_cons. auto. }
    rewrite Hb. simpl.
    destruct (IH (features ++ [Instance b]) output_channel)
      as (blocks & Hloop & Hlen & Hblocks).
    exists (b :: blocks). split; [|split].
    + rewrite Hloop, <- app_assoc. by destruct indices.
    + simpl. by rewrite Hlen.
    + intros [|j] i' b'; simpl.
      * by intros [= <-] [= <-].
      * intros Hi Hb'. specialize (Hblocks j i' b' Hi Hb'). by destruct j.
Qed.

(** One schedule entry [(t, c, n, s)] over the block of the specification's
    wording: exactly [n] blocks are appended, the first with stride [s]
    and the others with stride 1, each fed by the output channel count of
    what precedes it. *)
Lemma setting_body_spec (width_mult : Q) (round_nearest t c n s : Z)
    (features : list submodule) (input_channel : Z) :
  round_nearest ≠ 0 → s ∈ [1; 2] →
  ∃ output_channel blocks,
    _make_divisible (inject_Z c * width_mult) round_nearest None = Ok output_channel
    ∧ setting_body InvertedResidual_spec width_mult round_nearest [t; c; n; s]
        (features, input_channel)
      = Ok (features ++ (Instance <$> blocks),
            if bool_decide (0 < n) then output_channel else input_channel)
    ∧ length blocks = Z.to_nat n
    ∧ ∀ (j : nat) b,
        blocks !! j = Some b →
        InvertedResidual_spec (if j is O then input_channel else output_channel)
                              output_channel (if j is O then s else 1)
                              (inject_Z t) = Ok b.
Proof.
  intros Hrn Hs. unfold setting_body.
  destruct (make_divisible_divide (inject_Z c * width_mult) round_nearest None)
    as (output_channel & Hoc & _); [done | apply Z.divide_refl |].
  rewrite Hoc, bind_Ok.
  destruct (stage_loop_spec t s output_channel (seqZ 0 n) features input_channel Hs)
    as (blocks & Hloop & Hlen & Hblocks).
  exists output_channel, blocks. split; [done|]. split; [|split].
  - rewrite Hloop. do 2 f_equal.
    case_bool_decide.
    + by rewrite seqZ_0_pos.
    + by rewrite seqZ_nil by lia.
  - by rewrite Hlen, length_seqZ.
  - intros j b Hb.
    assert (j < Z.to_nat n)%nat as Hj.
    { rewrite <- length_seqZ with (m := 0), <- Hlen. by eapply lookup_lt_Some. }
    specialize (Hblocks j (Z.of_nat j) b).
    rewrite lookup_seqZ_lt in Hblocks by lia.
    specialize (Hblocks eq_refl Hb).
    destruct j; [done|].
    by rewrite bool_decide_eq_false_2 in Hblocks by lia.
Qed.

(** C6, at the default construction [MobileNetV2()]: the source raises in
    the first inverted residual block, so no [features] sequence comes
    into being; over the block of the specification's wording the
    sequence is the stride-2 stem, 17 inverted residual blocks and the 1x1
    head projection. *)
Theorem MobileNetV2_default_not_constructed :
  MobileNetV2 1000 1 None 8 = Raise (AttributeError "InvertedResidual" "stride")
  ∧ ∃ net,
      MobileNetV2_spec 1000 1 None 8 = Ok net
      ∧ length (features net) = 19%nat
      ∧ count is_InvertedResidual (features net) = 17%nat
      ∧ count is_ConvBnReLU (features net) = 2%nat
      ∧ head (features net) = Some (Layer (ConvBnReLU 3 32 3 2 1))
      ∧ last (features net) = Some (Layer (ConvBnReLU 320 1280 1 1 1)).
Proof.
  split; [reflexivity|].
  eexists. split; [vm_compute; reflexivity|].
  repeat split; vm_compute; reflexivity.
Qed.

(** C7, at [MobileNetV2(inverted_residual_setting=[[6, 24, 2, 2]])]: the
    source raises at the first of the entry's two blocks and creates none;
    over the block of the specification's wording the entry yields a
    stride-2 block from 32 to 24 channels followed by a stride-1 block from
    24 to 24. *)
Theorem MobileNetV2_stage_not_built :
  MobileNetV2 1000 1 (Some [[6; 24; 2; 2]]) 8
  = Raise (AttributeError "InvertedResidual" "stride")
  ∧ ∃ net b1 b2,
      MobileNetV2_spec 1000 1 (Some [[6; 24; 2; 2]]) 8 = Ok net
      ∧ InvertedResidual_spec 32 24 2 6 = Ok b1
      ∧ InvertedResidual_spec 24 24 1 6 = Ok b2
      ∧ features net = [Layer (ConvBnReLU 3 32 3 2 1); Instance b1; Instance b2;
                        Layer (ConvBnReLU 24 1280 1 1 1)].
Proof.
  split; [reflexivity|].
  do 3 eexists. repeat split; vm_compute; reflexivity.
Qed.

(** ** Forward computation *)

Example forward_block_free_shape :
  MobileNetV2_forward (block_free_network 1000) [5; 3; 224; 224] = Ok [5; 1000].
Proof. reflexivity. Qed.

Example forward_block_free_expr :
  MobileNetV2_forward (block_free_network 10) Input
  = Ok (EDequantize (ELinear 1280 10 (EDropout (1 # 5) (EMean [2; 3]
         (ERelu (EBatchNorm 1280 (EConv2d 32 1280 1 1 0 1
           (ERelu (EBatchNorm 32 (EConv2d 3 32 3 2 1 1
             (EQuantize Input))))))))))).
Proof. reflexivity. Qed.

Lemma layer_nested_ind (P : layer → Prop) :
  (∀ i o k s p g b, P (Conv2d i o k s p g b)) →
  (∀ c m, P (BatchNorm2d c m)) →
  (∀ b, P (ReLU b)) →
  (∀ p, P (Dropout p)) →
  (∀ i o, P (Linear i o)) →
  (∀ children, Forall P children → P (Sequential children)) →
  P FloatFunctional → P QuantStub → P DeQuantStub →
  ∀ l, P l.
Proof.
  intros Hconv Hbn Hrelu Hdrop Hlin Hseq Hff Hq Hdq.
  fix IH 1.
  intros [i o k s p g b|c m|b|p|i o|children| | |];
    [apply Hconv | apply Hbn | apply Hrelu | apply Hdrop | apply Hlin
    | | exact Hff | exact Hq | exact Hdq].
  apply Hseq. induction children as [|l children IHc]; constructor.
  - apply IH.
  - exact IHc.
Qed.

Lemma subexpr_refl (e : expr) : subexpr e e.
Proof. destruct e; by left. Qed.

Lemma subexpr_trans (a b c : expr) : subexpr a b → subexpr b c → subexpr a c.
Proof.
  intros Hab.
  induction c; simpl; (intros [-> | Hbc]; [exact Hab | right; intuition auto]).
Qed.

(** In the free interpretation every layer wraps its input. *)
Lemma forward_layer_subexpr (l : layer) (x y : expr) :
  forward_layer l x = Ok y → subexpr x y.
Proof.
  revert x y. induction l as [| | | | |children IH| | |] using layer_nested_ind;
    intros x y; simpl; try (intros [= <-]; right; apply subexpr_refl); try done.
  revert x. induction IH as [|l children Hl _ IHc]; intros x.
  - intros [= <-]. apply subexpr_refl.
  - destruct (forward_layer l x) as [x'|] eqn:Hx'; simpl; [|done].
    intros Hy. eapply subexpr_trans; [by apply Hl | by apply IHc].
Qed.

(** Inversion of a method body that returns. *)
Lemma method_bind_Ok {A B} (m : method A) (f : A → method B)
    (self self2 : pyobject) (b : B) :
  (m ≫= f) self = Ok (b, self2) →
  ∃ a self1, m self = Ok (a, self1) ∧ f a self1 = Ok (b, self2).
Proof.
  unfold mbind, method_bind. destruct (m self) as [[a self1]|]; [|done].
  intros Hf. by exists a, self1.
Qed.

Lemma call_Ok `{Tensor T} (m : value) (x y : T) (self self1 : pyobject) :
  call m x self = Ok (y, self1) → ∃ l, m = VModule l ∧ forward_layer l x = Ok y.
Proof.
  destruct m as [| |l]; try done. simpl. unfold lift.
  destruct (forward_layer l x) as [y'|] eqn:Hy; [|done].
  intros [= <- <-]. by exists l.
Qed.

Lemma get_add_Ok `{Tensor T} (m : value) (f : T → T → result T)
    (self self1 : pyobject) :
  get_add m self = Ok (f, self1) → f = add ∧ self1 = self.
Proof.
  destruct m as [| |[]]; try done. by intros [= <- <-].
Qed.

Lemma lift_Ok {A} (r : result A) (a : A) (self self1 : pyobject) :
  lift r self = Ok (a, self1) → r = Ok a.
Proof. destruct r; [|done]. by intros [= <- <-]. Qed.

(** [InvertedResidual.forward], when it returns, returns [conv(x)] or
    [x + conv(x)], according to [self.use_res_connect]. *)
Lemma InvertedResidual_forward_Ok `{Tensor T} (x y : T) (self self1 : pyobject) :
  InvertedResidual_forward x self = Ok (y, self1) →
  ∃ use_res_connect conv c,
    getattr "use_res_connect" self = Ok (use_res_connect, self)
    ∧ getattr "conv" self = Ok (VModule conv, self)
    ∧ forward_layer conv x = Ok c
    ∧ if truthy use_res_connect then add x c = Ok y else y = c.
Proof.
  assert (∀ name v s s', getattr name s = Ok (v, s') → s' = s) as Hget.
  { intros name v s s'. unfold getattr. repeat case_match; congruence. }
  unfold InvertedResidual_forward. intros Hfwd.
  apply method_bind_Ok in Hfwd as (u & s1 & Hu & Hfwd).
  pose proof (Hget _ _ _ _ Hu) as ->.
  exists u. destruct (truthy u).
  - apply method_bind_Ok in Hfwd as (sa & s1 & Hsa & Hfwd).
    pose proof (Hget _ _ _ _ Hsa) as ->.
    apply method_bind_Ok in Hfwd as (f & s1 & Hf & Hfwd).
    apply get_add_Ok in Hf as [-> ->].
    apply method_bind_Ok in Hfwd as (cv & s1 & Hcv & Hfwd).
    pose proof (Hget _ _ _ _ Hcv) as ->.
    apply method_bind_Ok in Hfwd as (c & s1 & Hc & Hfwd).
    apply call_Ok in Hc as (conv & -> & Hc).
    apply lift_Ok in Hfwd. by exists conv, c.
  - apply method_bind_Ok in Hfwd as (cv & s1 & Hcv & Hfwd).
    pose proof (Hget _ _ _ _ Hcv) as ->.
    apply call_Ok in Hfwd as (conv & -> & Hc). by exists conv, y.
Qed.

Lemma forward_submodule_subexpr (m : submodule) (x y : expr) :
  forward_submodule m x = Ok y → subexpr x y.
Proof.
  destruct m as [l|self]; simpl; [apply forward_layer_subexpr|].
  destruct (InvertedResidual_forward x self) as [[y' self1]|] eqn:Hfwd; [|done].
  simpl. intros [= ->].
  apply InvertedResidual_forward_Ok in Hfwd as (u & conv & c & _ & _ & Hc & Hy).
  destruct (truthy u).
  - injection Hy as <-. right. left. apply subexpr_refl.
  - subst. by eapply forward_layer_subexpr.
Qed.

Lemma for_each_forward_subexpr (ms : list submodule) (x y : expr) :
  for_each forward_submodule ms x = Ok y → subexpr x y.
Proof.
  revert x. induction ms as [|m ms IH]; intros x.
  - intros [= <-]. apply subexpr_refl.
  - rewrite for_each_cons.
    destruct (forward_submodule m x) as [x'|] eqn:Hx'; simpl; [|done].
    intros Hy. eapply subexpr_trans; [by eapply forward_submodule_subexpr | by apply IH].
Qed.

(** C5, as the code has it: [quant] and [dequant] bracket the whole path,
    the trunk, the spatial mean over dimensions [2, 3] and the classifier;
    the mean consumes the quantized trunk output and is consumed, through
    the classifier, by [dequant]: it executes inside the bracket. *)
Theorem MobileNetV2_forward_mean_inside_bracket
    (self : MobileNetV2_object) (x e : expr) :
  quant self = QuantStub → dequant self = DeQuantStub →
  MobileNetV2_forward self x = Ok e →
  ∃ trunk scores,
    for_each forward_submodule (features self) (EQuantize x) = Ok trunk
    ∧ forward_layer (classifier self) (EMean [2; 3] trunk) = Ok scores
    ∧ e = EDequantize scores
    ∧ inside_bracket (EMean [2; 3] trunk) e.
Proof.
  intros Hq Hdq. unfold MobileNetV2_forward. rewrite Hq, Hdq. simpl.
  destruct (for_each forward_submodule (features self) (EQuantize x))
    as [trunk|] eqn:Htrunk; simpl; [|done].
  destruct (forward_layer (classifier self) (EMean [2; 3] trunk))
    as [scores|] eqn:Hscores; simpl; [|done].
  intros [= <-]. exists trunk, scores. do 3 (split; [done|]).
  unfold inside_bracket. exists scores, x. split; [apply subexpr_refl|]. split.
  - by eapply forward_layer_subexpr.
  - right. by eapply for_each_forward_subexpr.
Qed.

(** The bracket of the block-free network. *)
Lemma MobileNetV2_forward_mean_inside_bracket_witness :
  ∃ trunk scores,
    for_each forward_submodule (features (block_free_network 10)) (EQuantize Input)
    = Ok trunk
    ∧ forward_layer (classifier (block_free_network 10)) (EMean [2; 3] trunk)
      = Ok scores
    ∧ EDequantize (ELinear 1280 10 (EDropout (1 # 5) (EMean [2; 3]
        (ERelu (EBatchNorm 1280 (EConv2d 32 1280 1 1 0 1
          (ERelu (EBatchNorm 32 (EConv2d 3 32 3 2 1 1
            (EQuantize Input)))))))))) = EDequantize scores
    ∧ inside_bracket (EMean [2; 3] trunk)
        (EDequantize (ELinear 1280 10 (EDropout (1 # 5) (EMean [2; 3]
          (ERelu (EBatchNorm 1280 (EConv2d 32 1280 1 1 0 1
            (ERelu (EBatchNorm 32 (EConv2d 3 32 3 2 1 1
              (EQuantize Input))))))))))).
Proof.
  apply (MobileNetV2_forward_mean_inside_bracket (block_free_network 10) Input);
    reflexivity.
Defined.

(** C5 as stated fails: in the forward computation of a network the
    constructor returns, the spatial mean is not outside the
    quant-to-dequant bracket. *)
Lemma MobileNetV2_forward_mean_not_outside :
  ∃ e,
    (net ← MobileNetV2 10 1 (Some [[1; 16; 0; 1]]) 8;
     MobileNetV2_forward net Input) = Ok e
    ∧ ¬ mean_outside_bracket e.
Proof.
  eexists. split; [reflexivity|].
  intros Hout.
  apply (Hout (ERelu (EBatchNorm 1280 (EConv2d 32 1280 1 1 0 1
                (ERelu (EBatchNorm 32 (EConv2d 3 32 3 2 1 1
                  (EQuantize Input)))))))).
  - simpl. tauto.
  - exists (ELinear 1280 10 (EDropout (1 # 5) (EMean [2; 3]
             (ERelu (EBatchNorm 1280 (EConv2d 32 1280 1 1 0 1
               (ERelu (EBatchNorm 32 (EConv2d 3 32 3 2 1 1
                 (EQuantize Input)))))))))), Input.
    repeat split; simpl; tauto.
Qed.

(** *** Shapes *)

Lemma shape_add_diag (x : list Z) : shape_add x x = Ok x.
Proof. unfold shape_add. by rewrite bool_decide_eq_true_2. Qed.

(** One child of [features] on a shape with a symbolic batch size. *)
Ltac forward_step :=
  eapply for_each_step;
  [ lazy -[shape_add]; rewrite ?shape_add_diag; reflexivity | ].

(** A Conv-Norm-Activation block on a 4-d shape. *)
Lemma ConvBnReLU_shape (in_planes out_planes kernel_size stride groups n h w : Z) :
  0 < stride →
  kernel_size ≤ h + 2 * ((kernel_size - 1) / 2) →
  kernel_size ≤ w + 2 * ((kernel_size - 1) / 2) →
  forward_layer (ConvBnReLU in_planes out_planes kernel_size stride groups)
                [n; in_planes; h; w]
  = Ok [n; out_planes;
        conv_out h kernel_size stride ((kernel_size - 1) / 2);
        conv_out w kernel_size stride ((kernel_size - 1) / 2)].
Proof.
  intros Hs Hh Hw. unfold ConvBnReLU. cbn [forward_layer].
  cbn [conv2d batch_norm relu shape_tensor].
  unfold shape_conv2d. rewrite bool_decide_eq_true_2 by done.
  rewrite bind_Ok. unfold shape_batch_norm.
  by rewrite bool_decide_eq_true_2.
Qed.

(** On every network the source's constructor returns (a stem and a head
    projection, see [MobileNetV2_Ok_features]), the forward computation
    maps [(N, 3, 224, 224)] to [(N, num_classes)]. *)
Lemma MobileNetV2_constructed_forward_shape
    (num_classes : Z) (width_mult : Q) (setting : option (list (list Z)))
    (round_nearest : Z) (net : MobileNetV2_object) (N : Z) :
  MobileNetV2 num_classes width_mult setting round_nearest = Ok net →
  MobileNetV2_forward net [N; 3; 224; 224] = Ok [N; num_classes].
Proof.
  intros Hnet. apply MobileNetV2_Ok_features in Hnet as [ic ->].
  generalize (last_channel net). intros lc.
  unfold MobileNetV2_forward. cbn [quant features classifier dequant].
  eapply bind_step; [reflexivity|].
  eapply bind_step.
  { do 2 (eapply for_each_step;
            [cbn [forward_submodule]; apply ConvBnReLU_shape; by cbv|]).
    reflexivity. }
  eapply bind_step; [vm_compute; reflexivity|].
  eapply bind_step; [|reflexivity].
  cbn [forward_layer]. cbn [dropout linear shape_tensor]. rewrite bind_Ok.
  unfold shape_linear. cbn [reverse rev_append].
  by rewrite bool_decide_eq_true_2.
Qed.

(** C8, at the default construction [MobileNetV2(num_classes)] and an
    input of shape [(N, 3, 224, 224)]: the source raises in the constructor,
    so no forward computation takes place; over the block of the
    specification's wording the output has shape [(N, num_classes)]. *)
Theorem MobileNetV2_default_forward_unreachable (num_classes N : Z) :
  (net ← MobileNetV2 num_classes 1 None 8;
   MobileNetV2_forward net [N; 3; 224; 224])
  = Raise (AttributeError "InvertedResidual" "stride")
  ∧ (net ← MobileNetV2_spec num_classes 1 None 8;
     MobileNetV2_forward net [N; 3; 224; 224])
    = Ok [N; num_classes].
Proof.
  split; [reflexivity|].
  eapply bind_step; [vm_compute; reflexivity|].
  unfold MobileNetV2_forward.
  eapply bind_step; [reflexivity|].
  eapply bind_step; [cbn [features]; do 19 forward_step; reflexivity|].
  reflexivity.
Qed.

(** * Further properties of the channel rounder *)
















(** On integer targets in [1, 256] and divisors in [1, 8] the binary64
    evaluation of the rounder returns what exact arithmetic returns. *)
Lemma rounders_agree_default_witness :
  (x ← Binary64.of_int 17; Binary64._make_divisible x 8 None)
  = _make_divisible (inject_Z 17) 8 None.
Proof.
  apply (rounders_agree_default 17 8); lia.
Defined.

(** * Further properties of the network assembler *)

(** A constructor call that returns, taken apart. *)
Lemma MobileNetV2_with_block_Ok (block : Z → Z → Z → Q → result pyobject)
    (num_classes : Z) (width_mult : Q) (setting : list (list Z))
    (round_nearest : Z) (net : MobileNetV2_object) :
  MobileNetV2_with_block block num_classes width_mult (Some setting) round_nearest
  = Ok net →
  ¬ first_entry_malformed setting
  ∧ ∃ ic fs ic',
      _make_divisible (inject_Z 32 * width_mult) round_nearest None = Ok ic
      ∧ _make_divisible (inject_Z 1280 * Qmax 1 width_mult) round_nearest None
        = Ok (last_channel net)
      ∧ for_each (setting_body block width_mult round_nearest) setting
                 ([Layer (ConvBnReLU 3 ic 3 2 1)], ic) = Ok (fs, ic')
      ∧ net = {| last_channel := last_channel net;
                 features := fs ++ [Layer (ConvBnReLU ic' (last_channel net) 1 1 1)];
                 quant := QuantStub;
                 dequant := DeQuantStub;
                 classifier := Sequential [Dropout (1 # 5);
                                           Linear (last_channel net) num_classes] |}.
Proof.
  rewrite MobileNetV2_unfold.
  pose proof (setting_check setting) as Hcheck.
  destruct (_ || _); [done|].
  destruct (_make_divisible (inject_Z 32 * width_mult) round_nearest None)
    as [ic|]; [simpl | done].
  destruct (_make_divisible (inject_Z 1280 * Qmax 1 width_mult) round_nearest None)
    as [lc|]; [simpl | done].
  destruct (for_each _ setting _) as [[fs ic']|] eqn:Hloop; [simpl | done].
  intros [= <-]. split.
  - intros Hm. by apply Hcheck in Hm.
  - by exists ic, fs, ic'.
Qed.

Lemma make_divisible_divisor_0 (v : Q) (min_value : option Z) :
  _make_divisible v 0 min_value = Raise ZeroDivisionError.
Proof. reflexivity. Qed.







(** The widths of a network the constructor returns: the stem has
    [_make_divisible(32 * width_mult, round_nearest)] output channels and
    the head [_make_divisible(1280 * max(1.0, width_mult), round_nearest)],
    both multiples of [round_nearest]; the classifier maps the head width to
    [num_classes]; and for [width_mult <= 1] the head is as wide as at
    width 1. *)
Theorem MobileNetV2_constructed_widths
    (num_classes : Z) (width_mult : Q) (setting : list (list Z))
    (round_nearest : Z) (net : MobileNetV2_object) :
  MobileNetV2 num_classes width_mult (Some setting) round_nearest = Ok net →
  ∃ ic,
    features net = [Layer (ConvBnReLU 3 ic 3 2 1);
                    Layer (ConvBnReLU ic (last_channel net) 1 1 1)]
    ∧ classifier net = Sequential [Dropout (1 # 5);
                                   Linear (last_channel net) num_classes]
    ∧ _make_divisible (inject_Z 32 * width_mult) round_nearest None = Ok ic
    ∧ _make_divisible (inject_Z 1280 * Qmax 1 width_mult) round_nearest None
      = Ok (last_channel net)
    ∧ (round_nearest | ic) ∧ (round_nearest | last_channel net)
    ∧ ((width_mult <= 1)%Q →
       _make_divisible (inject_Z 1280) round_nearest None = Ok (last_channel net)).
Proof.
  intros Hnet. unfold MobileNetV2 in Hnet.
  apply MobileNetV2_with_block_Ok in Hnet
    as (_ & ic & fs & ic' & Hic & Hlc & Hloop & Hnet).
  pose proof (setting_loop_source width_mult round_nearest setting
                ([Layer (ConvBnReLU 3 ic 3 2 1)], ic)) as Hsrc.
  rewrite Hloop in Hsrc. injection Hsrc as -> ->.
  assert (round_nearest ≠ 0) as Hrn.
  { intros ->. by rewrite make_divisible_divisor_0 in Hic. }
  exists ic.
  split; [by rewrite Hnet|]. split; [by rewrite Hnet|].
  split; [done|]. split; [done|].
  split; [|split].
  - destruct (make_divisible_divide (inject_Z 32 * width_mult) round_nearest None)
      as (r & Hr & Hdiv); [done | apply Z.divide_refl |]. congruence.
  - destruct (make_divisible_divide (inject_Z 1280 * Qmax 1 width_mult)
                round_nearest None)
      as (r & Hr & Hdiv); [done | apply Z.divide_refl |]. congruence.
  - intros Hwm. rewrite <- Hlc. unfold Qmax.
    destruct (Qltb 1 width_mult) eqn:Hlt; [|reflexivity].
    apply Qltb_lt in Hlt. by apply Qlt_not_le in Hlt.
Qed.

Lemma MobileNetV2_constructed_widths_witness :
  ∃ ic,
    features (block_free_network 10)
    = [Layer (ConvBnReLU 3 ic 3 2 1);
       Layer (ConvBnReLU ic (last_channel (block_free_network 10)) 1 1 1)]
    ∧ classifier (block_free_network 10)
      = Sequential [Dropout (1 # 5);
                    Linear (last_channel (block_free_network 10)) 10]
    ∧ _make_divisible (inject_Z 32 * 1) 8 None = Ok ic
    ∧ _make_divisible (inject_Z 1280 * Qmax 1 1) 8 None
      = Ok (last_channel (block_free_network 10))
    ∧ (8 | ic) ∧ (8 | last_channel (block_free_network 10))
    ∧ ((1 <= 1)%Q →
       _make_divisible (inject_Z 1280) 8 None
       = Ok (last_channel (block_free_network 10))).
Proof.
  apply (MobileNetV2_constructed_widths 10 1 [[1; 16; 0; 1]] 8
           (block_free_network 10)).
  reflexivity.
Defined.

(** Lines 125-128, for any constructor bound to [block]: a stage that goes
    through appends one instance per index and nothing else. *)
Lemma stage_loop_appends (block : Z → Z → Z → Q → result pyobject)
    (t s output_channel : Z) (indices : list Z)
    (st st' : list submodule * Z) :
  for_each (stage_body block t s output_channel) indices st = Ok st' →
  ∃ blocks, st'.1 = st.1 ++ (Instance <$> blocks)
            ∧ length blocks = length indices.
Proof.
  revert st. induction indices as [|i indices IH]; intros [fs ic].
  - intros [= <-]. exists []. by rewrite app_nil_r.
  - rewrite for_each_cons, stage_body_eq.
    destruct (block _ _ _ _) as [b|]; [|done]. rewrite bind_Ok. simpl.
    intros Hrest. apply IH in Hrest as (blocks & -> & Hlen).
    exists (b :: blocks). simpl. by rewrite <- app_assoc, Hlen.
Qed.

Lemma setting_loop_appends (block : Z → Z → Z → Q → result pyobject)
    (width_mult : Q) (round_nearest : Z) (setting : list (list Z))
    (st st' : list submodule * Z) :
  for_each (setting_body block width_mult round_nearest) setting st = Ok st' →
  Forall (λ entry, length entry = 4%nat) setting
  ∧ ∃ blocks, st'.1 = st.1 ++ (Instance <$> blocks)
              ∧ length blocks = total_blocks setting.
Proof.
  revert st. induction setting as [|entry rest IH]; intros st.
  - intros [= <-]. split; [constructor|]. exists []. by rewrite app_nil_r.
  - rewrite for_each_cons.
    destruct (setting_body _ _ _ entry st) as [st1|] eqn:Hentry; [|done].
    rewrite bind_Ok. intros Hrest.
    apply IH in Hrest as (Hlens & blocks2 & -> & Hlen2).
    unfold setting_body in Hentry.
    destruct entry as [|t [|c [|n [|s [|]]]]]; try done.
    destruct (_make_divisible _ _ _) as [oc|]; [|done]. rewrite bind_Ok in Hentry.
    apply stage_loop_appends in Hentry as (blocks1 & -> & Hlen1).
    split; [by constructor|].
    exists (blocks1 ++ blocks2).
    rewrite fmap_app, app_assoc. split; [done|].
    rewrite length_app, Hlen1, Hlen2, length_seqZ. reflexivity.
Qed.

(** The shape of [features], for whatever constructor the assembler's
    [block] is bound to: when the construction returns, [features] is the
    stride-2 stem, then one block instance per repeat of every stage (the
    sum of the positive repeat counts), then the 1x1 head projection, and
    every schedule entry has four fields. *)
Theorem MobileNetV2_features_layout (block : Z → Z → Z → Q → result pyobject)
    (num_classes : Z) (width_mult : Q) (setting : list (list Z))
    (round_nearest : Z) (net : MobileNetV2_object) :
  MobileNetV2_with_block block num_classes width_mult (Some setting) round_nearest
  = Ok net →
  Forall (λ entry, length entry = 4%nat) setting
  ∧ ∃ ic ic' blocks,
      features net
      = Layer (ConvBnReLU 3 ic 3 2 1)
        :: (Instance <$> blocks)
        ++ [Layer (ConvBnReLU ic' (last_channel net) 1 1 1)]
      ∧ length blocks = total_blocks setting.
Proof.
  intros Hnet.
  apply MobileNetV2_with_block_Ok in Hnet
    as (_ & ic & fs & ic' & _ & _ & Hloop & Hnet).
  apply setting_loop_appends in Hloop as (Hlens & blocks & Hfs & Hlen).
  simpl in Hfs. subst fs. split; [done|].
  exists ic, ic', blocks. split; [by rewrite Hnet | done].
Qed.

Lemma MobileNetV2_features_layout_witness :
  ∃ net,
    MobileNetV2_with_block InvertedResidual_spec 1000 1
      (Some default_inverted_residual_setting) 8 = Ok net
    ∧ Forall (λ entry, length entry = 4%nat) default_inverted_residual_setting
    ∧ ∃ ic ic' blocks,
        features net
        = Layer (ConvBnReLU 3 ic 3 2 1)
          :: (Instance <$> blocks)
          ++ [Layer (ConvBnReLU ic' (last_channel net) 1 1 1)]
        ∧ length blocks = total_blocks default_inverted_residual_setting.
Proof.
  destruct (MobileNetV2_with_block InvertedResidual_spec 1000 1
              (Some default_inverted_residual_setting) 8) as [net|] eqn:Hnet;
    [|by vm_compute in Hnet].
  exists net. split; [done|].
  by apply (MobileNetV2_features_layout InvertedResidual_spec 1000 1
              default_inverted_residual_setting 8 net).
Defined.




(** * Further properties of the forward computations *)









